(** * Verification of [source/scpp/extra/DUtils.cpp]

    The file is the C++ side of the binding between the D node and the
    C++ implementation of the Stellar Consensus Protocol.  Its functions
    receive untyped pointers ([void*]) from the D side, cast them back and
    operate on the C++ object behind them.  The embedding therefore has

    - a heap of C++ objects, addressed by [void*] values;
    - a state-and-failure monad over that heap: a cast to the wrong type
      or a dangling pointer is undefined behaviour in C++ and has no
      result here;
    - [std::set<T>] as a finite set, [std::chrono] durations as 64-bit
      signed tick counts with their period.

    The second half models two components of the consensus core the
    binding serves, the quorum-slice evaluator and the envelope validator,
    from their description.

    Definitions come first, properties after them. *)

From Stdlib Require Import ZArith List Lia Bool.
From Stdlib.Strings Require Import Byte.
From stdpp Require Import base option numbers countable gmap sets list.

#[local] Set Warnings "-clear-no-such-hyp".

Local Open Scope Z_scope.

(** ** Fixed-width integers *)

Module Int64.

Definition min_signed : Z := - 2 ^ 63.
Definition max_signed : Z := 2 ^ 63 - 1.
Definition modulus : Z := 2 ^ 64.

(** The value an [int64_t] holds after an operation whose mathematical
    result is [z] (two's complement). *)
Definition wrap (z : Z) : Z := (z + 2 ^ 63) mod modulus - 2 ^ 63.

Definition in_range (z : Z) : Prop := min_signed <= z <= max_signed.

Definition add (a b : Z) : Z := wrap (a + b).
Definition mul (a b : Z) : Z := wrap (a * b).

End Int64.

(** ** [std::chrono] durations *)

Module Chrono.

(** [std::ratio<Num, Den>]: the length of one tick, in seconds. *)
Record ratio := Ratio { num : Z; den : Z }.

Definition milli : ratio := Ratio 1 1000.
Definition hour : ratio := Ratio 3600 1.

(** [std::chrono::duration<int64_t, Period>]: a tick count. *)
Record duration (period : ratio) := Duration { count : Z }.
Arguments Duration {period} _.
Arguments count {period} _.

Definition milliseconds := duration milli.
Definition hours := duration hour.

(** [std::ratio_divide<From, To>], not reduced. *)
Definition ratio_divide (a b : ratio) : ratio :=
  Ratio (num a * den b) (den a * num b).

(** [duration_cast]: the count is multiplied by the numerator and divided
    by the denominator of the conversion factor, in 64-bit arithmetic;
    C++ division truncates towards zero. *)
Definition duration_cast {from : ratio} (to : ratio) (d : duration from) : duration to :=
  let cf := ratio_divide from to in
  Duration (Z.quot (Int64.mul (count d) (num cf)) (den cf)).

(** [duration::operator+=]: [rep_ += d.count()]. *)
Definition plus_assign {p : ratio} (lhs rhs : duration p) : duration p :=
  Duration (Int64.add (count lhs) (count rhs)).

End Chrono.

(** ** The heap behind the [void*] arguments *)

Module Mem.

(** A [void*]; [null] is the null pointer. *)
Abbreviation addr := N.
Definition null : addr := 0%N.

Section Heap.
Context {T : Type} {EqT : EqDecision T} {CntT : Countable T}.

(** The objects the functions of the file reach through a pointer, for
    one instantiation [T] of the templates. *)
Inductive object : Type :=
| OSet (s : gset T)                     (* std::set<T> *)
| OVal (v : T)                          (* T *)
| OMillis (d : Chrono.milliseconds).    (* std::chrono::milliseconds *)

Local Abbreviation heap := (gmap addr object).

(** State and undefined behaviour. *)
Definition M (A : Type) : Type := heap -> option (A * heap).

Definition ret {A} (a : A) : M A := fun h => Some (a, h).

Definition bind {A B} (m : M A) (k : A -> M B) : M B :=
  fun h => match m h with
           | Some (a, h') => k a h'
           | None => None
           end.

Definition undefined {A} : M A := fun _ => None.

(** [new]: a fresh, non-null address. *)
Definition new (o : object) : M addr :=
  fun h => let p := fresh ({[null]} ∪ dom h) in Some (p, <[p := o]> h).

(** [*(std::set<T>* )p] *)
Definition load_set (p : addr) : M (gset T) :=
  fun h => match h !! p with
           | Some (OSet s) => Some (s, h)
           | _ => None
           end.

(** [*(T* )p] *)
Definition load_val (p : addr) : M T :=
  fun h => match h !! p with
           | Some (OVal v) => Some (v, h)
           | _ => None
           end.

(** [*(std::chrono::milliseconds* )p] *)
Definition load_millis (p : addr) : M Chrono.milliseconds :=
  fun h => match h !! p with
           | Some (OMillis d) => Some (d, h)
           | _ => None
           end.

(** Assignment through a pointer that was just loaded from. *)
Definition store (p : addr) (o : object) : M unit :=
  fun h => Some (tt, <[p := o]> h).

End Heap.

Arguments object T {_ _}.
Arguments M T {_ _} A.

Abbreviation heap T := (gmap addr (object T)).

End Mem.

Declare Scope cpp_scope.
Delimit Scope cpp_scope with cpp.
Notation "'let*' x := c 'in' k" := (Mem.bind c (fun x => k))
  (at level 10, x name, c at level 100, k at level 200) : cpp_scope.
Notation "c ;; k" := (Mem.bind c (fun _ => k))
  (at level 100, k at level 200, right associativity) : cpp_scope.

(** ** [std::set<T>] *)

Module StdSet.
Section StdSet.
Context {T : Type} {EqT : EqDecision T} {CntT : Countable T}.

(** [std::set<T>::insert(const T&)]: the key is added unless an equivalent
    key is already there.  The comparison of every type the file
    instantiates the templates at ([unsigned int], byte vectors, ballots
    and node identifiers, compared field by field) is a total order, so
    equivalent keys are equal keys. *)
Definition insert (k : T) (s : gset T) : gset T := {[k]} ∪ s.

(** [std::set<T>(std::initializer_list<T>)]: the elements are inserted one
    after the other into the empty set. *)
Definition of_initializer_list (l : list T) : gset T :=
  fold_left (fun s k => insert k s) l ∅.

End StdSet.
End StdSet.

(** ** Protocol types the templates are instantiated at *)

Module SCP.

#[global] Instance byte_eq_dec : EqDecision byte := Byte.byte_eq_dec.
#[global] Instance byte_countable : Countable byte :=
  inj_countable Byte.to_N Byte.of_N Byte.of_to_N.

(** Modelled from the spec: the declaration of [Value] (xdr/Stellar-SCP.h)
    is missing; it is an "opaque application payload being voted on (byte
    sequence)". *)
Definition Value : Type := list byte.

(** Modelled from the spec: the declaration of [SCPBallot]
    (xdr/Stellar-SCP.h) is missing; it is "(counter: unsigned integer,
    value: Value)". *)
Record SCPBallot := Ballot { counter : N; value : Value }.

#[global] Instance SCPBallot_eq_dec : EqDecision SCPBallot.
Proof. solve_decision. Defined.

#[global] Instance SCPBallot_countable : Countable SCPBallot :=
  inj_countable' (fun b => (counter b, value b))
                 (fun p => Ballot (fst p) (snd p))
                 (fun b => match b with Ballot _ _ => eq_refl end).

End SCP.

(** ** The functions of [DUtils.cpp] *)

Module DUtils.
Import Mem.
Local Open Scope cpp_scope.

(** [unsigned int]; the file does no arithmetic on it. *)
Abbreviation uint := N.

(** The templates at one type [T]; [bump5Hours] is no template, it runs on
    the heap of whichever instantiation it is linked with. *)
Section Templates.
Context {T : Type} {EqT : EqDecision T} {CntT : Countable T}.

(** [template<typename T> void cpp_set_insert(void* setptr, void* key)] *)
Definition cpp_set_insert (setptr key : addr) : M T unit :=
  let* the_key := load_val key in
  let* set := load_set setptr in
  store setptr (OSet (StdSet.insert the_key set)).

(** [template <typename T> void* makeStdSet()] *)
Definition makeStdSet : M T addr :=
  new (OSet ∅).

(** [void bump5Hours(void* ms)] *)
Definition bump5Hours (ms : addr) : M T unit :=
  let* millis := load_millis ms in
  store ms (OMillis (Chrono.plus_assign millis
                       (Chrono.duration_cast Chrono.milli
                          (Chrono.Duration 5 : Chrono.hours)))).

End Templates.

(** The explicit instantiations [CPPSETINSERTINST(T)]; [NodeID], whose
    declaration is missing, is any type a finite set can be built over. *)
Definition cpp_set_insert_Value := cpp_set_insert (T := SCP.Value).
Definition cpp_set_insert_uint := cpp_set_insert (T := uint).
Definition cpp_set_insert_SCPBallot := cpp_set_insert (T := SCP.SCPBallot).
Definition cpp_set_insert_NodeID {NodeID : Type} {EqN : EqDecision NodeID}
    {CntN : Countable NodeID} := cpp_set_insert (T := NodeID).

(** The explicit instantiations [CPPSETMAKETESTINST(T)]. *)
Definition makeStdSet_Value := makeStdSet (T := SCP.Value).
Definition makeStdSet_uint := makeStdSet (T := uint).
Definition makeStdSet_SCPBallot := makeStdSet (T := SCP.SCPBallot).
Definition makeStdSet_NodeID {NodeID : Type} {EqN : EqDecision NodeID}
    {CntN : Countable NodeID} := makeStdSet (T := NodeID).

(** [std::set<unsigned int>* makeTestSet()] *)
Definition makeTestSet : M uint addr :=
  new (OSet (StdSet.of_initializer_list [1; 2; 3; 4; 5]%N)).

(** Small heaps to run the functions on. *)

(** A heap with a [std::set<unsigned int>] holding 7 at address 1 and an
    [unsigned int] 9 at address 2. *)
Definition heap_set_and_key : heap uint :=
  <[1%N := OSet {[7%N]}]> (<[2%N := OVal 9%N]> ∅).

(** A heap with a duration of 1,500 ms at address 4. *)
Definition heap_millis : heap uint :=
  <[4%N := OMillis (Chrono.Duration 1500)]> ∅.

End DUtils.

(** * The consensus core behind the binding

    [DUtils.cpp] instantiates its templates at the types of the consensus
    protocol ([SCPQuorumSet], [SCPStatement], [SCPEnvelope], [NodeID]) and
    hands them to the protocol implementation, which is not part of the
    file.  The two components below are modelled from the description of
    that implementation. *)

(** ** Quorum-slice evaluator *)

Module QuorumSlice.

Section Evaluator.
Context {NodeID : Type} {EqN : EqDecision NodeID} {CntN : Countable NodeID}.

(** Modelled from the spec: the declaration of [SCPQuorumSet]
    (xdr/Stellar-SCP.h) is missing.  It is "a tagged tree (node =
    {threshold, children: list of {leaf NodeID | nested node}})", the
    threshold an unsigned integer. *)
Inductive SCPQuorumSet : Type :=
| QuorumSet (threshold : N) (children : list QuorumMember)
with QuorumMember : Type :=
| Leaf (node : NodeID)
| Nested (inner : SCPQuorumSet).

Definition threshold (q : SCPQuorumSet) : N :=
  match q with QuorumSet t _ => t end.

Definition children (q : SCPQuorumSet) : list QuorumMember :=
  match q with QuorumSet _ cs => cs end.

(** The number of members of [cs] that pass [test]. *)
Definition count (test : QuorumMember -> bool) (cs : list QuorumMember) : N :=
  N.of_nat (length (List.filter test cs)).

Definition is_nil {A} (l : list A) : bool :=
  match l with [] => true | _ => false end.

(** Modelled from the spec: the quorum-slice evaluator of the consensus
    core is missing.  "Recursive threshold counting over the quorum-set
    tree; a node satisfies its slice if at least [threshold] of its
    immediate children (leaf NodeIDs or nested sets, each recursively
    evaluated) are satisfied.  Edge cases: empty quorum set never
    satisfied." *)
Fixpoint isQuorumSlice (q : SCPQuorumSet) (nodes : gset NodeID) : bool :=
  match q with
  | QuorumSet t cs =>
      negb (is_nil cs)
      && (t <=? count (fun m => match m with
                                | Leaf n => bool_decide (n ∈ nodes)
                                | Nested q' => isQuorumSlice q' nodes
                                end) cs)%N
  end.

Definition memberSatisfied (nodes : gset NodeID) (m : QuorumMember) : bool :=
  match m with
  | Leaf n => bool_decide (n ∈ nodes)
  | Nested q => isQuorumSlice q nodes
  end.

(** Modelled from the spec: "self always counted as satisfying its own
    slice trivially for local statements". *)
Definition isQuorumSliceLocal (self : NodeID) (q : SCPQuorumSet)
    (nodes : gset NodeID) : bool :=
  isQuorumSlice q ({[self]} ∪ nodes).

(** Modelled from the spec: a v-blocking set "intersects every quorum
    slice" of the node. *)
Definition VBlocking (q : SCPQuorumSet) (nodes : gset NodeID) : Prop :=
  forall slice : gset NodeID,
    isQuorumSlice q slice = true -> exists n, n ∈ nodes /\ n ∈ slice.

(** The same by threshold counting: with [k] children of which a slice
    needs [t], the set blocks when it blocks so many children that fewer
    than [t] are left; a quorum set that is never satisfied has no slice
    to miss. *)
Fixpoint isVBlocking (q : SCPQuorumSet) (nodes : gset NodeID) : bool :=
  match q with
  | QuorumSet t cs =>
      is_nil cs
      || (N.of_nat (length cs)
          <? t + count (fun m => match m with
                                 | Leaf n => bool_decide (n ∈ nodes)
                                 | Nested q' => isVBlocking q' nodes
                                 end) cs)%N
  end.

Definition memberBlocked (nodes : gset NodeID) (m : QuorumMember) : bool :=
  match m with
  | Leaf n => bool_decide (n ∈ nodes)
  | Nested q => isVBlocking q nodes
  end.

(** All node identifiers of a quorum set. *)
Fixpoint allNodes (q : SCPQuorumSet) : gset NodeID :=
  match q with
  | QuorumSet _ cs =>
      fold_right (fun m acc => match m with
                               | Leaf n => {[n]} ∪ acc
                               | Nested q' => allNodes q' ∪ acc
                               end) ∅ cs
  end.

(** [P] holds of the quorum set nested in a member, if there is one. *)
Definition nestedHolds (P : SCPQuorumSet -> Prop) (m : QuorumMember) : Prop :=
  match m with
  | Leaf _ => True
  | Nested q => P q
  end.

End Evaluator.

Arguments SCPQuorumSet NodeID : clear implicits.
Arguments QuorumMember NodeID : clear implicits.

(** Two out of: node 1, node 2, and either of the nodes 3 and 4. *)
Definition example_quorum_set : SCPQuorumSet N :=
  QuorumSet 2 [Leaf 1%N; Leaf 2%N; Nested (QuorumSet 1 [Leaf 3%N; Leaf 4%N])].

End QuorumSlice.

(** ** Envelope validation and the consensus driver *)

Module Driver.
Import SCP QuorumSlice.

(** Modelled from the spec: the declarations of the statement types and of
    the validation errors are missing.  A statement is a "tagged variant
    over {NOMINATE, PREPARE, CONFIRM, EXTERNALIZE}"; the ballot protocol
    has the states of the same names; the errors are "BadSignature,
    StaleSlot, Malformed, UnknownQuorumSet". *)
Inductive SCPStatementType := NOMINATE | PREPARE | CONFIRM | EXTERNALIZE.

Inductive Phase :=
  PhaseNominate | PhasePrepare | PhaseConfirm | PhaseExternalize.

Inductive ValidationError :=
  BadSignature | StaleSlot | Malformed | UnknownQuorumSet.

(** [Result<A, E>] *)
Inductive Result (A E : Type) : Type :=
| Ok (a : A)
| Err (e : E).
Arguments Ok {A E} a.
Arguments Err {A E} e.

Section Driver.
Context {NodeID : Type} {EqN : EqDecision NodeID} {CntN : Countable NodeID}.
(** Hashes and signatures, whatever their representation. *)
Context {Hash Signature : Type}.

(** Modelled from the spec: the declaration of [SCPStatement]
    (xdr/Stellar-SCP.h) is missing.  Each variant is "carrying ballot(s),
    quorum-set hash, and slot index". *)
Record SCPStatement := Statement {
  statementType : SCPStatementType;
  ballots : list SCPBallot;
  quorumSetHash : Hash;
  slotIndex : N
}.

(** Modelled from the spec: the declaration of [SCPEnvelope]
    (xdr/Stellar-SCP.h) is missing; it is "SCPStatement + signature +
    sender NodeID". *)
Record SCPEnvelope := Envelope {
  statement : SCPStatement;
  signature : Signature;
  sender : NodeID
}.

(** Modelled from the spec: the slot of the consensus core is missing.  It
    is the "mutable per-slot state owned exclusively by the driver:
    highest ballot seen/confirmed, latest statements per node (replacing
    older ones from the same node), nomination candidate set, current
    phase". *)
Record Slot := MkSlot {
  highestSeen : option SCPBallot;
  highestConfirmed : option SCPBallot;
  latestStatements : gmap NodeID SCPStatement;
  candidates : gset Value;
  phase : Phase
}.

(** Modelled from the spec: the driver of the consensus core is missing.
    It "owns all mutable state per slot index" and knows "the node's
    lowest tracked slot". *)
Record DriverState := MkDriver {
  slots : gmap N Slot;
  lowestSlot : N
}.

(** What the core consumes from outside or leaves open: the "verifier
    capability", where a non-empty value "is required", the quorum sets
    known by hash, and the "nomination/ballot evaluators" that validated
    envelopes are dispatched into. *)
Variable verify : NodeID -> SCPStatement -> Signature -> bool.
Variable valueRequired : SCPStatementType -> bool.
Variable getQuorumSet : Hash -> option (SCPQuorumSet NodeID).
Variable evaluate : SCPQuorumSet NodeID -> SCPEnvelope -> Slot -> Slot.

(** Modelled from the spec: "statement well-formedness (ballot counter >
    0, value non-empty where required)". *)
Definition wellFormedBallot (ty : SCPStatementType) (b : SCPBallot) : bool :=
  (0 <? counter b)%N
  && (negb (valueRequired ty) || negb (is_nil (value b))).

Definition wellFormed (st : SCPStatement) : bool :=
  forallb (wellFormedBallot (statementType st)) (ballots st).

(** Modelled from the spec: the envelope/statement validator is missing.
    It "validates signature against claimed NodeID, checks slot index is
    not below the node's lowest tracked slot, checks statement
    well-formedness" and "rejects with a specific error kind
    (BadSignature, StaleSlot, Malformed)". *)
Definition validate (d : DriverState) (e : SCPEnvelope)
    : Result unit ValidationError :=
  if negb (verify (sender e) (statement e) (signature e)) then Err BadSignature
  else if (slotIndex (statement e) <? lowestSlot d)%N then Err StaleSlot
  else if negb (wellFormed (statement e)) then Err Malformed
  else Ok tt.

(** The state of a slot no envelope has reached yet. *)
Definition newSlot : Slot :=
  MkSlot None None ∅ ∅ PhaseNominate.

Definition dispatch (q : SCPQuorumSet NodeID) (e : SCPEnvelope)
    (d : DriverState) : DriverState :=
  let i := slotIndex (statement e) in
  MkDriver (<[i := evaluate q e (default newSlot (slots d !! i))]> (slots d))
           (lowestSlot d).

(** Modelled from the spec: the entry point of the consensus core is
    missing: "submitEnvelope(envelope) -> Result<void, ValidationError>".
    An envelope in error is dropped; the driver "dispatches validated
    envelopes into nomination/ballot evaluators". *)
Definition submitEnvelope (e : SCPEnvelope) (d : DriverState)
    : Result unit ValidationError * DriverState :=
  match validate d e with
  | Err err => (Err err, d)
  | Ok _ =>
      match getQuorumSet (quorumSetHash (statement e)) with
      | None => (Err UnknownQuorumSet, d)
      | Some q => (Ok tt, dispatch q e d)
      end
  end.

(** Validity as the three checks state it. *)
Definition valid (d : DriverState) (e : SCPEnvelope) : Prop :=
  verify (sender e) (statement e) (signature e) = true
  /\ (lowestSlot d <= slotIndex (statement e))%N
  /\ wellFormed (statement e) = true.

End Driver.

Arguments SCPStatement Hash : clear implicits.
Arguments SCPEnvelope NodeID Hash Signature : clear implicits.
Arguments Slot NodeID {EqN CntN} Hash.
Arguments DriverState NodeID {EqN CntN} Hash.

(** An envelope for slot 3, signed by node 1, and a driver whose lowest
    tracked slot is 5. *)
Definition stale_envelope : SCPEnvelope N N N :=
  Envelope (Statement PREPARE [Ballot 1 [x01%byte]] 0%N 3%N) 0%N 1%N.

Definition driver_at_5 : DriverState N N := MkDriver ∅ 5%N.

(** The driver on small inputs: signatures verify when they are 0, every
    ballot needs a value, and the only known quorum set has hash 0. *)
Definition run_submit (e : SCPEnvelope N N N) (d : DriverState N N) :=
  submitEnvelope (fun _ _ sig => (sig =? 0)%N) (fun _ => true)
    (fun h => if (h =? 0)%N then Some example_quorum_set else None)
    (fun _ e s => MkSlot (highestSeen s) (highestConfirmed s)
                    (<[sender e := statement e]> (latestStatements s))
                    (candidates s) (phase s))
    e d.

End Driver.

(** * More of [DUtils.cpp]

    The remaining function with a body of its own, [callCPPDelegate], and
    the calls of the set and duration functions in sequence, as the D side
    issues them. *)

(** ** Calls in sequence *)

Module DUtilsCalls.
Import Mem DUtils.
Local Open Scope cpp_scope.

Section Calls.
Context {T : Type} {EqT : EqDecision T} {CntT : Countable T}.

(** [cpp_set_insert<T>(setptr, key)] for each pointer of [keys], in order. *)
Fixpoint cpp_set_insert_each (setptr : addr) (keys : list addr) : M T unit :=
  match keys with
  | [] => ret tt
  | key :: keys' =>
      cpp_set_insert setptr key ;; cpp_set_insert_each setptr keys'
  end.

(** [bump5Hours(ms)], [n] times. *)
Fixpoint bump5Hours_times (n : nat) (ms : addr) : M T unit :=
  match n with
  | O => ret tt
  | S n' => bump5Hours ms ;; bump5Hours_times n' ms
  end.

(** Two sets from [makeStdSet<T>()], and one key inserted into the first. *)
Definition two_sets_one_insert (key : addr) : M T (addr * addr) :=
  let* first := makeStdSet in
  let* second := makeStdSet in
  cpp_set_insert first key ;; ret (first, second).

(** A set from [makeStdSet<T>()] filled with [cpp_set_insert<T>]. *)
Definition makeStdSet_filled (keys : list addr) : M T addr :=
  let* set := makeStdSet in
  cpp_set_insert_each set keys ;; ret set.

(** The values behind a list of key pointers. *)
Definition keys_hold (h : heap T) (keys : list addr) (vals : list T) : Prop :=
  Forall2 (fun key v => h !! key = Some (OVal v)) keys vals.

End Calls.

(** A heap with a set holding 7 at address 1 and the keys 9, 7 and 3 at the
    addresses 2, 3 and 5. *)
Definition heap_set_and_keys : heap uint :=
  <[1%N := OSet {[7%N]}]>
    (<[2%N := OVal 9%N]> (<[3%N := OVal 7%N]> (<[5%N := OVal 3%N]> ∅))).

(** A heap with the keys 1 to 5 at the addresses 11 to 15. *)
Definition heap_five_keys : heap uint :=
  <[11%N := OVal 1%N]> (<[12%N := OVal 2%N]> (<[13%N := OVal 3%N]>
    (<[14%N := OVal 4%N]> (<[15%N := OVal 5%N]> ∅)))).

End DUtilsCalls.

(** ** [callCPPDelegate] *)

Module Delegate.
Import Mem.

(** What a call ends with: a normal return, or an exception on its way to
    the caller. *)
Inductive outcome (E : Type) : Type :=
| Returns
| Throws (e : E).
Arguments Returns {E}.
Arguments Throws {E} e.

Section Delegate.
Context {T : Type} {EqT : EqDecision T} {CntT : Countable T}.
(** The targets a [std::function<void()>] can hold and the exceptions a
    target can throw: code of the D side. *)
Context {Target Exn : Type}.

(** [std::bad_function_call], or an exception of the target. *)
Inductive exception : Type :=
| bad_function_call
| thrown (e : Exn).

(** The heap with the [std::function<void()>] objects in it: one is empty
    or holds a target. *)
Inductive cell : Type :=
| CObject (o : object T)
| CFunction (target : option Target).

(** What invoking a target does to the heap; no result when its behaviour
    is undefined. *)
Variable invoke :
  Target -> gmap addr cell -> option (outcome exception * gmap addr cell).

(** [std::function<void()>::operator()] on the object at [cb]. *)
Definition call_function (cb : addr) (h : gmap addr cell)
    : option (outcome exception * gmap addr cell) :=
  match h !! cb with
  | Some (CFunction (Some target)) => invoke target h
  | Some (CFunction None) => Some (Throws bad_function_call, h)
  | _ => None
  end.

(** [delete (std::function<void()>* )cb] *)
Definition delete_function (cb : addr) (h : gmap addr cell)
    : option (outcome exception * gmap addr cell) :=
  match h !! cb with
  | Some (CFunction _) => Some (Returns, delete cb h)
  | _ => None
  end.

(** [void callCPPDelegate (void* cb)]: the statement after the call is
    reached only when the call returns. *)
Definition callCPPDelegate (cb : addr) (h : gmap addr cell)
    : option (outcome exception * gmap addr cell) :=
  match call_function cb h with
  | Some (Returns, h') => delete_function cb h'
  | Some (Throws e, h') => Some (Throws e, h')
  | None => None
  end.

End Delegate.

Arguments exception Exn : clear implicits.
Arguments cell T {EqT CntT} Target.

(** Targets that add a number to the set at address 1, throw it, or
    delete the [std::function] at an address. *)
Inductive example_target :=
  AddToSet (k : N) | Raise (k : N) | DeleteFunction (p : addr).

Definition example_invoke (t : example_target) (h : gmap addr (cell N example_target))
    : option (outcome (exception N) * gmap addr (cell N example_target)) :=
  match t with
  | AddToSet k =>
      match h !! 1%N with
      | Some (CObject (OSet s)) =>
          Some (Returns, <[1%N := CObject (OSet (StdSet.insert k s))]> h)
      | _ => None
      end
  | Raise k => Some (Throws (thrown k), h)
  | DeleteFunction p =>
      match h !! p with
      | Some (CFunction _) => Some (Returns, delete p h)
      | _ => None
      end
  end.

(** A set at address 1, a delegate adding 4 to it at address 2, a throwing
    delegate at address 3, an empty one at address 4 and one deleting
    itself at address 5. *)
Definition heap_delegates : gmap addr (cell N example_target) :=
  <[1%N := CObject (OSet ∅)]>
    (<[2%N := CFunction (Some (AddToSet 4))]>
       (<[3%N := CFunction (Some (Raise 8))]>
          (<[4%N := CFunction None]>
             (<[5%N := CFunction (Some (DeleteFunction 5))]> ∅)))).

End Delegate.

(** ** Properties of the functions of [DUtils.cpp] *)

Module DUtilsProofs.
Import Mem DUtils.

Section SetInsert.
Context {T : Type} {EqT : EqDecision T} {CntT : Countable T}.

Lemma std_set_insert_elem (k x : T) (s : gset T) :
  x ∈ StdSet.insert k s <-> x = k \/ x ∈ s.
Proof. unfold StdSet.insert. set_solver. Qed.

Lemma std_set_insert_present (k : T) (s : gset T) :
  k ∈ s -> StdSet.insert k s = s.
Proof.
  intros Hk. unfold StdSet.insert. apply set_eq. intros x.
  rewrite elem_of_union, elem_of_singleton. naive_solver.
Qed.

Lemma std_set_insert_size (k : T) (s : gset T) :
  size (StdSet.insert k s) = (size s + (if decide (k ∈ s) then 0 else 1))%nat.
Proof.
  case_decide as Hk.
  - rewrite std_set_insert_present by done. lia.
  - unfold StdSet.insert. rewrite size_union by set_solver.
    rewrite size_singleton. lia.
Qed.

Lemma cpp_set_insert_run (h : heap T) (setptr key : addr) (s : gset T) (k : T) :
  h !! setptr = Some (OSet s) ->
  h !! key = Some (OVal k) ->
  cpp_set_insert setptr key h
  = Some (tt, <[setptr := OSet (StdSet.insert k s)]> h).
Proof.
  intros Hs Hk. unfold cpp_set_insert, bind, load_val, load_set, store.
  by rewrite Hk, Hs.
Qed.

(** C9: [cpp_set_insert<T>(s, k)] on a pointer to a set and a pointer to a
    key returns normally; afterwards the set holds the key, it holds
    nothing else that is new, its size has grown by one when the key was
    absent and by nothing when it was present, every other object is as it
    was, and running the same call again changes nothing. *)
Theorem cpp_set_insert_spec (h : heap T) (setptr key : addr) (s : gset T) (k : T) :
  h !! setptr = Some (OSet s) ->
  h !! key = Some (OVal k) ->
  exists (s' : gset T) (h' : heap T),
    cpp_set_insert setptr key h = Some (tt, h')
    /\ h' !! setptr = Some (OSet s')
    /\ k ∈ s'
    /\ (forall x, x ∈ s' <-> x = k \/ x ∈ s)
    /\ (k ∉ s -> size s' = (size s + 1)%nat)
    /\ (k ∈ s -> size s' = size s)
    /\ (forall q, q <> setptr -> h' !! q = h !! q)
    /\ cpp_set_insert setptr key h' = Some (tt, h').
Proof.
  intros Hs Hk.
  assert (Hne : key <> setptr) by (intros ->; congruence).
  exists (StdSet.insert k s), (<[setptr := OSet (StdSet.insert k s)]> h).
  split; [by apply cpp_set_insert_run|].
  split; [by rewrite lookup_insert_eq|].
  split; [by apply std_set_insert_elem; left|].
  split; [intros x; apply std_set_insert_elem|].
  split; [by intros Hk'; rewrite std_set_insert_size, decide_False|].
  split; [by intros Hk'; rewrite std_set_insert_size, decide_True by done; lia|].
  split; [by intros q Hq; rewrite lookup_insert_ne|].
  rewrite (cpp_set_insert_run _ setptr key (StdSet.insert k s) k).
  - rewrite std_set_insert_present by (apply std_set_insert_elem; by left).
    by rewrite insert_insert_eq.
  - by rewrite lookup_insert_eq.
  - by rewrite lookup_insert_ne.
Qed.

End SetInsert.

Lemma cpp_set_insert_spec_witness :
  exists (s' : gset uint) (h' : heap uint),
    cpp_set_insert 1%N 2%N heap_set_and_key = Some (tt, h')
    /\ h' !! 1%N = Some (OSet s')
    /\ 9%N ∈ s'
    /\ (forall x, x ∈ s' <-> x = 9%N \/ x ∈ ({[7%N]} : gset uint))
    /\ (9%N ∉ ({[7%N]} : gset uint) -> size s' = (size ({[7%N]} : gset uint) + 1)%nat)
    /\ (9%N ∈ ({[7%N]} : gset uint) -> size s' = size ({[7%N]} : gset uint))
    /\ (forall q, q <> 1%N -> h' !! q = heap_set_and_key !! q)
    /\ cpp_set_insert 1%N 2%N h' = Some (tt, h').
Proof.
  apply (cpp_set_insert_spec heap_set_and_key 1%N 2%N {[7%N]} 9%N); reflexivity.
Defined.

Section Bump.
Context {T : Type} {EqT : EqDecision T} {CntT : Countable T}.

Lemma int64_wrap_in_range (z : Z) : Int64.in_range z -> Int64.wrap z = z.
Proof.
  unfold Int64.in_range, Int64.min_signed, Int64.max_signed, Int64.wrap, Int64.modulus.
  intros Hz. rewrite Z.mod_small; lia.
Qed.

(** [std::chrono::hours(5)], converted to milliseconds, counts 18,000,000. *)
Lemma five_hours_in_milliseconds :
  Chrono.duration_cast Chrono.milli (Chrono.Duration 5 : Chrono.hours)
  = Chrono.Duration 18000000.
Proof. reflexivity. Qed.

Lemma int64_wrap_range (z : Z) : Int64.in_range (Int64.wrap z).
Proof.
  unfold Int64.in_range, Int64.min_signed, Int64.max_signed, Int64.wrap, Int64.modulus.
  pose proof (Z.mod_pos_bound (z + 2 ^ 63) (2 ^ 64)). lia.
Qed.

(** C10: [bump5Hours] on a pointer to a millisecond duration of count [d]
    returns normally and leaves there the count [d] plus the count of five
    hours in milliseconds, 18,000,000, reduced to the 64 bits of the
    representation; the sum is exact whenever it fits.  No other object
    changes. *)
Theorem bump5Hours_spec (h : heap T) (ms : addr) (d : Z) :
  h !! ms = Some (OMillis (Chrono.Duration d)) ->
  Int64.in_range d ->
  exists (d' : Z) (h' : heap T),
    bump5Hours ms h = Some (tt, h')
    /\ h' !! ms = Some (OMillis (Chrono.Duration d'))
    /\ Chrono.count (Chrono.duration_cast Chrono.milli
                       (Chrono.Duration 5 : Chrono.hours)) = 18000000
    /\ d' = Int64.wrap (d + 18000000)
    /\ Int64.in_range d'
    /\ (d + 18000000 <= Int64.max_signed -> d' = d + 18000000)
    /\ (forall q, q <> ms -> h' !! q = h !! q).
Proof.
  intros Hms Hd.
  exists (Int64.wrap (d + 18000000)),
    (<[ms := OMillis (Chrono.Duration (Int64.wrap (d + 18000000)))]> h).
  split.
  { unfold bump5Hours, bind, load_millis, store. rewrite Hms.
    by rewrite five_hours_in_milliseconds. }
  split; [by rewrite lookup_insert_eq|].
  split; [done|]. split; [done|].
  split; [apply int64_wrap_range|].
  split.
  - intros Hfit. apply int64_wrap_in_range.
    unfold Int64.in_range, Int64.min_signed in *. lia.
  - intros q Hq. by rewrite lookup_insert_ne.
Qed.

End Bump.

Lemma bump5Hours_spec_witness :
  exists (d' : Z) (h' : heap uint),
    bump5Hours 4%N heap_millis = Some (tt, h')
    /\ h' !! 4%N = Some (OMillis (Chrono.Duration d'))
    /\ Chrono.count (Chrono.duration_cast Chrono.milli
                       (Chrono.Duration 5 : Chrono.hours)) = 18000000
    /\ d' = Int64.wrap (1500 + 18000000)
    /\ Int64.in_range d'
    /\ (1500 + 18000000 <= Int64.max_signed -> d' = 1500 + 18000000)
    /\ (forall q, q <> 4%N -> h' !! q = heap_millis !! q).
Proof.
  apply (bump5Hours_spec heap_millis 4%N 1500).
  - reflexivity.
  - unfold Int64.in_range, Int64.min_signed, Int64.max_signed. lia.
Defined.

Lemma test_set_elements :
  StdSet.of_initializer_list [1; 2; 3; 4; 5]%N = ({[1; 2; 3; 4; 5]}%N : gset uint).
Proof. unfold StdSet.of_initializer_list, StdSet.insert. simpl. set_solver. Qed.

Lemma new_run {T : Type} {EqT : EqDecision T} {CntT : Countable T}
    (o : object T) (h : heap T) :
  exists p, new o h = Some (p, <[p := o]> h) /\ p <> null /\ h !! p = None.
Proof.
  exists (fresh ({[null]} ∪ dom h)). split; [done|].
  pose proof (is_fresh ({[null]} ∪ dom h)) as Hfresh.
  split.
  - intros Hp. apply Hfresh. rewrite Hp. set_solver.
  - apply not_elem_of_dom. set_solver.
Qed.

(** C8: [makeTestSet] returns a non-null pointer to an object that did not
    exist before the call, a [std::set<unsigned int>] whose elements are
    exactly 1, 2, 3, 4 and 5, five in number; the objects that existed
    before are as they were. *)
Theorem makeTestSet_spec (h : heap uint) :
  exists (p : addr) (s : gset uint) (h' : heap uint),
    makeTestSet h = Some (p, h')
    /\ p <> null
    /\ h !! p = None
    /\ h' !! p = Some (OSet s)
    /\ size s = 5%nat
    /\ (forall x : uint, x ∈ s <-> x = 1 \/ x = 2 \/ x = 3 \/ x = 4 \/ x = 5)%N
    /\ (forall q, q <> p -> h' !! q = h !! q).
Proof.
  destruct (new_run (OSet (StdSet.of_initializer_list [1; 2; 3; 4; 5]%N)) h)
    as (p & Hrun & Hnull & Hnew).
  exists p, (StdSet.of_initializer_list [1; 2; 3; 4; 5]%N),
    (<[p := OSet (StdSet.of_initializer_list [1; 2; 3; 4; 5]%N)]> h).
  split; [exact Hrun|]. split; [exact Hnull|]. split; [exact Hnew|].
  split; [by rewrite lookup_insert_eq|].
  rewrite test_set_elements.
  split; [|split].
  - rewrite !size_union, !size_singleton; set_solver.
  - intros x. set_solver.
  - intros q Hq. by rewrite lookup_insert_ne.
Qed.

(** The calls on small heaps. *)
Example makeTestSet_first_object :
  makeTestSet ∅ = Some (1%N, {[1%N := OSet {[1; 2; 3; 4; 5]}%N]}).
Proof. by vm_compute. Qed.

Example cpp_set_insert_new_key :
  cpp_set_insert 1%N 2%N heap_set_and_key
  = Some (tt, <[1%N := OSet {[7; 9]}%N]> heap_set_and_key).
Proof. by vm_compute. Qed.

Example cpp_set_insert_key_as_set :
  cpp_set_insert 2%N 2%N heap_set_and_key = None.
Proof. by vm_compute. Qed.

Example bump5Hours_small :
  bump5Hours 4%N heap_millis
  = Some (tt, {[4%N := OMillis (Chrono.Duration 18001500)]}).
Proof. by vm_compute. Qed.

Example bump5Hours_at_max :
  bump5Hours 4%N ({[4%N := OMillis (Chrono.Duration Int64.max_signed)]} : heap uint)
  = Some (tt, {[4%N := OMillis (Chrono.Duration (Int64.min_signed + 17999999))]}).
Proof. by vm_compute. Qed.

End DUtilsProofs.

(** ** Properties of the quorum-slice evaluator *)

Module QuorumSliceProofs.
Import QuorumSlice.

Section Evaluator.
Context {NodeID : Type} {EqN : EqDecision NodeID} {CntN : Countable NodeID}.

Implicit Types (q : SCPQuorumSet NodeID) (m : QuorumMember NodeID).
Implicit Types (cs : list (QuorumMember NodeID)) (nodes slice : gset NodeID).

(** *** Induction over the quorum-set tree *)

Lemma quorum_set_ind (P : SCPQuorumSet NodeID -> Prop) :
  (forall t cs, Forall (nestedHolds P) cs -> P (QuorumSet t cs)) ->
  forall q, P q.
Proof.
  intros Hnode. fix IH 1. intros [t cs]. apply Hnode.
  induction cs as [|m cs IHcs]; constructor; [|exact IHcs].
  destruct m as [n|q']; simpl; [exact I|apply IH].
Qed.

(** *** The evaluators, one level at a time *)

Lemma isQuorumSlice_unfold t cs nodes :
  isQuorumSlice (QuorumSet t cs) nodes
  = negb (is_nil cs) && (t <=? count (memberSatisfied nodes) cs)%N.
Proof. reflexivity. Qed.

Lemma isVBlocking_unfold t cs nodes :
  isVBlocking (QuorumSet t cs) nodes
  = is_nil cs || (N.of_nat (length cs) <? t + count (memberBlocked nodes) cs)%N.
Proof. reflexivity. Qed.

Lemma allNodes_member t cs m :
  m ∈ cs ->
  match m with
  | Leaf n => n ∈ allNodes (QuorumSet t cs)
  | Nested q' => allNodes q' ⊆ allNodes (QuorumSet t cs)
  end.
Proof.
  simpl. induction 1 as [m cs|m m' cs Hin IH].
  - destruct m; simpl; set_solver.
  - destruct m, m'; simpl in *; set_solver.
Qed.

(** *** Counting *)

Lemma count_nil (test : QuorumMember NodeID -> bool) : count test [] = 0%N.
Proof. reflexivity. Qed.

Lemma count_cons (test : QuorumMember NodeID -> bool) m cs :
  count test (m :: cs) = ((if test m then 1 else 0) + count test cs)%N.
Proof. unfold count. simpl. destruct (test m); simpl; lia. Qed.

Lemma count_mono (f g : QuorumMember NodeID -> bool) cs :
  Forall (fun m => f m = true -> g m = true) cs ->
  (count f cs <= count g cs)%N.
Proof.
  induction 1 as [|m cs Hm _ IH]; [done|].
  rewrite !count_cons. destruct (f m) eqn:Hf.
  - rewrite Hm by done. lia.
  - destruct (g m); lia.
Qed.

Lemma count_le_length (f : QuorumMember NodeID -> bool) cs :
  (count f cs <= N.of_nat (length cs))%N.
Proof.
  induction cs as [|m cs IH]; [done|].
  rewrite count_cons. simpl length. destruct (f m); lia.
Qed.

(** Two tests passed by more members than there are share a member. *)
Lemma count_overlap (f g : QuorumMember NodeID -> bool) cs :
  (N.of_nat (length cs) < count f cs + count g cs)%N ->
  exists m, m ∈ cs /\ f m = true /\ g m = true.
Proof.
  induction cs as [|m cs IH]; [rewrite !count_nil; simpl; lia|].
  rewrite !count_cons. simpl length. intros Hlt.
  destruct (f m) eqn:Hf, (g m) eqn:Hg;
    try (exists m; split; [left|done]);
    destruct IH as (m' & Hin & Hm'); try lia;
    (exists m'; split; [by right|done]).
Qed.

(** Members failing a test and members passing its complement. *)
Lemma count_complement (f g : QuorumMember NodeID -> bool) cs :
  Forall (fun m => f m = false -> g m = true) cs ->
  (N.of_nat (length cs) <= count f cs + count g cs)%N.
Proof.
  induction 1 as [|m cs Hm _ IH]; [done|].
  rewrite !count_cons. simpl length. destruct (f m) eqn:Hf.
  - destruct (g m); lia.
  - rewrite Hm by done. lia.
Qed.

(** *** Monotonicity *)

Lemma isQuorumSlice_mono q nodes nodes' :
  nodes ⊆ nodes' ->
  isQuorumSlice q nodes = true -> isQuorumSlice q nodes' = true.
Proof.
  intros Hsub. induction q as [t cs IH] using quorum_set_ind.
  rewrite !isQuorumSlice_unfold, !andb_true_iff, !N.leb_le.
  intros [Hne Hcount]. split; [done|].
  etransitivity; [exact Hcount|]. apply count_mono.
  eapply Forall_impl; [exact IH|].
  intros [n|q'] Hq'; simpl; [|exact Hq'].
  rewrite !bool_decide_eq_true. set_solver.
Qed.

Lemma isVBlocking_mono q nodes nodes' :
  nodes ⊆ nodes' ->
  isVBlocking q nodes = true -> isVBlocking q nodes' = true.
Proof.
  intros Hsub. induction q as [t cs IH] using quorum_set_ind.
  rewrite !isVBlocking_unfold, !orb_true_iff, !N.ltb_lt.
  intros [Hnil|Hcount]; [by left|right].
  eapply N.lt_le_trans; [exact Hcount|].
  apply N.add_le_mono_l, count_mono.
  eapply Forall_impl; [exact IH|].
  intros [n|q'] Hq'; simpl; [|exact Hq'].
  rewrite !bool_decide_eq_true. set_solver.
Qed.

(** *** Threshold counting decides "intersects every quorum slice" *)

Lemma isVBlocking_sound q nodes :
  isVBlocking q nodes = true -> VBlocking q nodes.
Proof.
  induction q as [t cs IH] using quorum_set_ind.
  rewrite isVBlocking_unfold, orb_true_iff, N.ltb_lt.
  intros Hblock slice.
  rewrite isQuorumSlice_unfold, andb_true_iff, negb_true_iff, N.leb_le.
  intros [Hne Hslice].
  destruct Hblock as [Hnil|Hblock]; [congruence|].
  destruct (count_overlap (memberBlocked nodes) (memberSatisfied slice) cs)
    as (m & Hin & Hb & Hs); [lia|].
  rewrite Forall_forall in IH. specialize (IH m Hin).
  destruct m as [n|q']; simpl in *.
  - exists n. by rewrite !bool_decide_eq_true in *.
  - by apply IH.
Qed.

Lemma isVBlocking_complete q nodes :
  isVBlocking q nodes = false -> isQuorumSlice q (allNodes q ∖ nodes) = true.
Proof.
  induction q as [t cs IH] using quorum_set_ind.
  rewrite isVBlocking_unfold, orb_false_iff, N.ltb_ge.
  intros [Hne Hblock].
  rewrite isQuorumSlice_unfold, andb_true_iff, negb_true_iff, N.leb_le.
  split; [done|].
  pose proof (count_le_length (memberBlocked nodes) cs) as Hle.
  cut (N.of_nat (length cs)
       <= count (memberBlocked nodes) cs
          + count (memberSatisfied (allNodes (QuorumSet t cs) ∖ nodes)) cs)%N;
    [lia|].
  apply count_complement. rewrite Forall_forall in IH |- *.
  intros m Hin Hfree. pose proof (allNodes_member t cs m Hin) as Hall.
  specialize (IH m Hin). destruct m as [n|q']; simpl in *.
  - rewrite bool_decide_eq_false in Hfree. rewrite bool_decide_eq_true.
    set_solver.
  - eapply isQuorumSlice_mono; [|by apply IH]. set_solver.
Qed.

Lemma isVBlocking_spec q nodes :
  isVBlocking q nodes = true <-> VBlocking q nodes.
Proof.
  split; [apply isVBlocking_sound|].
  intros Hblock. destruct (isVBlocking q nodes) eqn:Hb; [done|].
  destruct (Hblock _ (isVBlocking_complete q nodes Hb)) as (n & Hin & Hout).
  set_solver.
Qed.

(** C3: the evaluator is monotonic in the node set.  For a quorum set [q]
    and node sets [nodes ⊆ nodes'], each answer for [nodes] is at most the
    answer for [nodes']: as a quorum slice, as a quorum slice of the
    local node, and as a v-blocking set, both decided by threshold
    counting and as the property of meeting every slice. *)
Theorem evaluator_monotonic q nodes nodes' :
  nodes ⊆ nodes' ->
  Bool.le (isQuorumSlice q nodes) (isQuorumSlice q nodes')
  /\ Bool.le (isVBlocking q nodes) (isVBlocking q nodes')
  /\ (VBlocking q nodes -> VBlocking q nodes')
  /\ (forall self,
        Bool.le (isQuorumSliceLocal self q nodes)
                (isQuorumSliceLocal self q nodes')).
Proof.
  intros Hsub. repeat split.
  - destruct (isQuorumSlice q nodes) eqn:Hq; simpl; [|done].
    by apply (isQuorumSlice_mono q nodes).
  - destruct (isVBlocking q nodes) eqn:Hq; simpl; [|done].
    by apply (isVBlocking_mono q nodes).
  - rewrite <- !isVBlocking_spec. by apply isVBlocking_mono.
  - intros self. unfold isQuorumSliceLocal.
    destruct (isQuorumSlice q ({[self]} ∪ nodes)) eqn:Hq; simpl; [|done].
    apply (isQuorumSlice_mono q ({[self]} ∪ nodes)); [set_solver|done].
Qed.

End Evaluator.

Example example_slice :
  isQuorumSlice example_quorum_set {[1%N; 3%N]} = true
  /\ isQuorumSlice example_quorum_set {[3%N; 4%N]} = false
  /\ isVBlocking example_quorum_set {[1%N; 2%N]} = true
  /\ isVBlocking example_quorum_set {[1%N; 3%N]} = false
  /\ isQuorumSlice (QuorumSet 0 []) {[1%N]} = false.
Proof. by vm_compute. Qed.

Lemma evaluator_monotonic_witness :
  Bool.le (isQuorumSlice example_quorum_set {[1%N; 3%N]})
          (isQuorumSlice example_quorum_set {[1%N; 3%N; 4%N]})
  /\ Bool.le (isVBlocking example_quorum_set {[1%N; 3%N]})
             (isVBlocking example_quorum_set {[1%N; 3%N; 4%N]})
  /\ (VBlocking example_quorum_set {[1%N; 3%N]} ->
      VBlocking example_quorum_set {[1%N; 3%N; 4%N]})
  /\ (forall self,
        Bool.le (isQuorumSliceLocal self example_quorum_set {[1%N; 3%N]})
                (isQuorumSliceLocal self example_quorum_set {[1%N; 3%N; 4%N]})).
Proof.
  apply (evaluator_monotonic example_quorum_set {[1%N; 3%N]} {[1%N; 3%N; 4%N]}).
  set_solver.
Defined.

End QuorumSliceProofs.

(** ** Properties of envelope validation *)

Module DriverProofs.
Import SCP QuorumSlice Driver.

Section Driver.
Context {NodeID : Type} {EqN : EqDecision NodeID} {CntN : Countable NodeID}.
Context {Hash Signature : Type}.
Variable verify : NodeID -> SCPStatement Hash -> Signature -> bool.
Variable valueRequired : SCPStatementType -> bool.
Variable getQuorumSet : Hash -> option (SCPQuorumSet NodeID).
Variable evaluate :
  SCPQuorumSet NodeID -> SCPEnvelope NodeID Hash Signature ->
  Slot NodeID Hash -> Slot NodeID Hash.

Implicit Types (d : DriverState NodeID Hash).
Implicit Types (e : SCPEnvelope NodeID Hash Signature).

Local Abbreviation validate := (validate verify valueRequired).
Local Abbreviation valid := (valid verify valueRequired).
Local Abbreviation submitEnvelope :=
  (submitEnvelope verify valueRequired getQuorumSet evaluate).

(** The validator accepts exactly the envelopes that pass the three
    checks. *)
Lemma validate_ok_iff d e : validate d e = Ok tt <-> valid d e.
Proof.
  unfold Driver.validate, Driver.valid.
  destruct (verify _ _ _); simpl; [|split; [done|intros [? _]; done]].
  destruct (N.ltb_spec (slotIndex (statement e)) (lowestSlot d)).
  { split; [done|]. intros (_ & ? & _). lia. }
  destruct (wellFormed _ _); simpl.
  - split; [|done]. intros _. repeat split; [lia].
  - split; [done|]. by intros (_ & _ & ?).
Qed.

(** Each rejection names the first check that fails. *)
Lemma validate_error d e (err : ValidationError) :
  validate d e = Err err ->
  (err = BadSignature
   /\ verify (sender e) (statement e) (signature e) = false)
  \/ (err = StaleSlot
      /\ verify (sender e) (statement e) (signature e) = true
      /\ (slotIndex (statement e) < lowestSlot d)%N)
  \/ (err = Malformed
      /\ verify (sender e) (statement e) (signature e) = true
      /\ (lowestSlot d <= slotIndex (statement e))%N
      /\ wellFormed valueRequired (statement e) = false).
Proof.
  unfold Driver.validate.
  destruct (verify _ _ _); simpl; [|intros [= <-]; by left].
  destruct (N.ltb_spec (slotIndex (statement e)) (lowestSlot d)).
  { intros [= <-]. right; left. done. }
  destruct (wellFormed _ _); simpl; [done|].
  intros [= <-]. right; right. done.
Qed.

(** An envelope answered with an error leaves the driver as it was. *)
Lemma submitEnvelope_error_unchanged d e (err : ValidationError) d' :
  submitEnvelope e d = (Err err, d') -> d' = d.
Proof.
  unfold Driver.submitEnvelope.
  destruct (validate d e); [|by intros [= _ <-]].
  destruct (getQuorumSet _); [done|by intros [= _ <-]].
Qed.

(** C7: an envelope that fails a check of the validator, or names a quorum
    set that is not known, is answered with an error and the state of the
    driver, with every slot in it, is what it was before the call.  The
    error is the kind of the first failing check: [BadSignature] when the
    signature does not verify, else [StaleSlot] when the slot index is
    below the lowest tracked slot, else [Malformed] when the statement is
    not well formed, else [UnknownQuorumSet]. *)
Theorem submitEnvelope_rejects d e :
  ~ (valid d e /\ is_Some (getQuorumSet (quorumSetHash (statement e)))) ->
  exists err : ValidationError,
    submitEnvelope e d = (Err err, d)
    /\ (~ valid d e ->
        err = BadSignature \/ err = StaleSlot \/ err = Malformed)
    /\ (err = BadSignature <->
        verify (sender e) (statement e) (signature e) = false)
    /\ (err = StaleSlot <->
        verify (sender e) (statement e) (signature e) = true
        /\ (slotIndex (statement e) < lowestSlot d)%N)
    /\ (err = Malformed <->
        verify (sender e) (statement e) (signature e) = true
        /\ (lowestSlot d <= slotIndex (statement e))%N
        /\ wellFormed valueRequired (statement e) = false)
    /\ (err = UnknownQuorumSet <->
        valid d e /\ getQuorumSet (quorumSetHash (statement e)) = None).
Proof.
  intros Hinvalid. unfold Driver.submitEnvelope.
  destruct (validate d e) as [[]|err] eqn:Hv.
  - apply validate_ok_iff in Hv.
    destruct (getQuorumSet _) as [q|] eqn:Hq; [by destruct Hinvalid|].
    exists UnknownQuorumSet. split; [done|]. split; [done|].
    destruct Hv as (Hsig & Hslot & Hwf).
    repeat split; try done; try (intros; congruence).
    + intros [_ ?]; lia.
    + intros (_ & _ & ?); congruence.
  - exists err. split; [done|].
    assert (~ valid d e) as Hnv.
    { rewrite <- validate_ok_iff. congruence. }
    destruct (validate_error d e err Hv)
      as [[-> Hsig]|[(-> & Hsig & Hslot)|(-> & Hsig & Hslot & Hwf)]];
      (split; [intros _; auto|]);
      repeat split; try done; try (intros; congruence);
      try (intros [? _]; congruence); try (intros [_ ?]; lia);
      try (intros (_ & ? & _); lia).
Qed.

End Driver.

Lemma submitEnvelope_rejects_witness :
  exists err : ValidationError,
    submitEnvelope (fun _ _ _ => true) (fun _ => true)
      (fun _ => None) (fun _ _ s => s) stale_envelope driver_at_5
    = (Err err, driver_at_5)
    /\ err = StaleSlot.
Proof.
  destruct (submitEnvelope_rejects (fun _ _ _ => true) (fun _ => true)
              (fun _ => None) (fun _ _ s => s) driver_at_5 stale_envelope)
    as (err & Hrun & _ & _ & Hstale & _).
  - intros [(_ & Hslot & _) _]. simpl in Hslot. lia.
  - exists err. split; [exact Hrun|]. apply Hstale. split; [reflexivity|].
    simpl. lia.
Defined.

(** The driver on small inputs. *)
Example submit_bad_signature :
  run_submit (Envelope (Statement PREPARE [Ballot 1 [x01%byte]] 0%N 7%N) 9%N 1%N)
             driver_at_5
  = (Err BadSignature, driver_at_5).
Proof. reflexivity. Qed.

Example submit_stale_slot :
  run_submit stale_envelope driver_at_5 = (Err StaleSlot, driver_at_5).
Proof. reflexivity. Qed.

Example submit_zero_counter :
  run_submit (Envelope (Statement PREPARE [Ballot 0 [x01%byte]] 0%N 7%N) 0%N 1%N)
             driver_at_5
  = (Err Malformed, driver_at_5).
Proof. reflexivity. Qed.

Example submit_empty_value :
  run_submit (Envelope (Statement CONFIRM [Ballot 2 []] 0%N 7%N) 0%N 1%N)
             driver_at_5
  = (Err Malformed, driver_at_5).
Proof. reflexivity. Qed.

Example submit_unknown_quorum_set :
  run_submit (Envelope (Statement PREPARE [Ballot 1 [x01%byte]] 4%N 7%N) 0%N 1%N)
             driver_at_5
  = (Err UnknownQuorumSet, driver_at_5).
Proof. reflexivity. Qed.

Example submit_valid :
  fst (run_submit (Envelope (Statement PREPARE [Ballot 1 [x01%byte]] 0%N 7%N) 0%N 1%N)
                  driver_at_5)
  = Ok tt
  /\ is_Some (slots (snd (run_submit
        (Envelope (Statement PREPARE [Ballot 1 [x01%byte]] 0%N 7%N) 0%N 1%N)
        driver_at_5)) !! 7%N).
Proof. split; [reflexivity|]. vm_compute. eauto. Qed.

End DriverProofs.

(** ** Properties of calls in sequence *)

Module DUtilsCallsProofs.
Import Mem DUtils DUtilsCalls DUtilsProofs.

Section Calls.
Context {T : Type} {EqT : EqDecision T} {CntT : Countable T}.

Implicit Types (h : heap T) (s : gset T) (setptr key ms : addr).

(** *** Each function as a case distinction on what its pointers reach *)

Lemma cpp_set_insert_cases setptr key h :
  cpp_set_insert setptr key h
  = match h !! key, h !! setptr with
    | Some (OVal k), Some (OSet s) =>
        Some (tt, <[setptr := OSet (StdSet.insert k s)]> h)
    | _, _ => None
    end.
Proof.
  unfold cpp_set_insert, bind, load_val, load_set, store.
  destruct (h !! key) as [[| |]|]; try done.
  destruct (h !! setptr) as [[| |]|]; done.
Qed.

Lemma bump5Hours_cases ms h :
  bump5Hours ms h
  = match h !! ms with
    | Some (OMillis d) =>
        Some (tt, <[ms := OMillis (Chrono.Duration
                             (Int64.wrap (Chrono.count d + 18000000)))]> h)
    | _ => None
    end.
Proof.
  unfold bump5Hours, bind, load_millis, store.
  destruct (h !! ms) as [[| |]|]; try done.
Qed.

Lemma std_set_insert_comm (k1 k2 : T) s :
  StdSet.insert k1 (StdSet.insert k2 s) = StdSet.insert k2 (StdSet.insert k1 s).
Proof. unfold StdSet.insert. set_solver. Qed.

(** X1: [makeStdSet<T>()] returns a non-null pointer to an object that did
    not exist before the call, an empty [std::set<T>]; the objects that
    existed before are as they were. *)
Theorem makeStdSet_spec h :
  exists (p : addr) (h' : heap T),
    makeStdSet h = Some (p, h')
    /\ p <> null
    /\ h !! p = None
    /\ h' !! p = Some (OSet ∅)
    /\ dom h' = {[p]} ∪ dom h
    /\ (forall q, q <> p -> h' !! q = h !! q).
Proof.
  destruct (new_run (OSet (∅ : gset T)) h) as (p & Hrun & Hnull & Hnew).
  exists p, (<[p := OSet ∅]> h).
  split; [exact Hrun|]. split; [exact Hnull|]. split; [exact Hnew|].
  split; [by rewrite lookup_insert_eq|].
  split; [by rewrite dom_insert_L|].
  intros q Hq. by rewrite lookup_insert_ne.
Qed.

(** X2: [cpp_set_insert<T>] has a result exactly when [setptr] points to a
    set and [key] to a key; it has none when both are the same pointer.
    When it has one, no object was created or freed and the key is as it
    was. *)
Theorem cpp_set_insert_defined setptr key h :
  (is_Some (cpp_set_insert setptr key h) <->
   (exists s, h !! setptr = Some (OSet s)) /\ (exists k, h !! key = Some (OVal k)))
  /\ cpp_set_insert setptr setptr h = None
  /\ (forall u h', cpp_set_insert setptr key h = Some (u, h') ->
        dom h' = dom h /\ h' !! key = h !! key).
Proof.
  rewrite !cpp_set_insert_cases. split; [|split].
  - destruct (h !! key) as [[| |]|] eqn:Hk, (h !! setptr) as [[| |]|] eqn:Hs;
      split; try (intros [? [=]]); try (intros [[? [=]] [? [=]]]);
      eauto.
  - destruct (h !! setptr) as [[| |]|]; done.
  - intros u h'.
    destruct (h !! key) as [[|k|]|] eqn:Hk; try done.
    destruct (h !! setptr) as [[s| |]|] eqn:Hs; try done.
    intros [= _ <-]. split.
    + rewrite dom_insert_L. apply elem_of_dom_2 in Hs. set_solver.
    + rewrite lookup_insert_ne; [done|]. intros ->. congruence.
Qed.

(** X3: two [cpp_set_insert<T>] calls on one set give the same heap in
    either order, and fail in either order when one of them fails. *)
Theorem cpp_set_insert_commute setptr key1 key2 h :
  bind (cpp_set_insert setptr key1) (fun _ => cpp_set_insert setptr key2) h
  = bind (cpp_set_insert setptr key2) (fun _ => cpp_set_insert setptr key1) h.
Proof.
  unfold bind. rewrite !cpp_set_insert_cases.
  destruct (h !! setptr) as [[s| |]|] eqn:Hs;
    try (destruct (h !! key1) as [[| |]|], (h !! key2) as [[| |]|]; done).
  destruct (decide (key1 = setptr)) as [->|Hne1].
  { rewrite Hs. destruct (h !! key2) as [[| |]|]; try done.
    rewrite cpp_set_insert_cases, lookup_insert_eq. done. }
  destruct (decide (key2 = setptr)) as [->|Hne2].
  { rewrite Hs. destruct (h !! key1) as [[| |]|]; try done.
    rewrite cpp_set_insert_cases, lookup_insert_eq. done. }
  destruct (h !! key1) as [[|k1|]|] eqn:Hk1, (h !! key2) as [[|k2|]|] eqn:Hk2;
    rewrite ?cpp_set_insert_cases, ?lookup_insert_eq, ?lookup_insert_ne,
      ?Hk1, ?Hk2 by done; try done.
  by rewrite !insert_insert_eq, std_set_insert_comm.
Qed.

(** X4: [bump5Hours] and [cpp_set_insert<T>] do not interfere: in either
    order they give the same heap, and fail in either order when one of
    them fails. *)
Theorem bump5Hours_cpp_set_insert_commute ms setptr key h :
  bind (bump5Hours ms) (fun _ => cpp_set_insert setptr key) h
  = bind (cpp_set_insert setptr key) (fun _ => bump5Hours ms) h.
Proof.
  unfold bind. rewrite cpp_set_insert_cases, bump5Hours_cases.
  destruct (h !! ms) as [[| |d]|] eqn:Hms.
  - destruct (h !! key) as [[| |]|]; try done.
    destruct (h !! setptr) as [[| |]|]; try done.
    rewrite bump5Hours_cases.
    destruct (decide (setptr = ms)) as [->|Hne];
      [by rewrite lookup_insert_eq|by rewrite lookup_insert_ne, Hms].
  - destruct (h !! key) as [[| |]|]; try done.
    destruct (h !! setptr) as [[| |]|] eqn:Hs; try done.
    rewrite bump5Hours_cases.
    destruct (decide (setptr = ms)) as [->|Hne];
      [by rewrite lookup_insert_eq|by rewrite lookup_insert_ne, Hms].
  - rewrite cpp_set_insert_cases.
    destruct (decide (key = ms)) as [->|Hk].
    { rewrite lookup_insert_eq, Hms. done. }
    rewrite lookup_insert_ne by done.
    destruct (h !! key) as [[|k|]|] eqn:Hkey; try done.
    destruct (decide (setptr = ms)) as [->|Hs].
    { rewrite lookup_insert_eq, Hms. done. }
    rewrite lookup_insert_ne by done.
    destruct (h !! setptr) as [[s| |]|] eqn:Hset; try done.
    rewrite bump5Hours_cases, lookup_insert_ne, Hms by done.
    by rewrite insert_insert_ne.
  - destruct (h !! key) as [[| |]|]; try done.
    destruct (h !! setptr) as [[| |]|] eqn:Hs; try done.
    rewrite bump5Hours_cases.
    destruct (decide (setptr = ms)) as [->|Hne];
      [congruence|by rewrite lookup_insert_ne, Hms].
Qed.

(** *** Filling a set *)

Lemma keys_hold_insert_set setptr s s' keys (vals : list T) h :
  h !! setptr = Some (OSet s) ->
  keys_hold h keys vals ->
  keys_hold (<[setptr := OSet s']> h) keys vals.
Proof.
  intros Hs Hkeys. unfold keys_hold in *.
  eapply Forall2_impl; [exact Hkeys|]. intros key v Hkey. simpl in *.
  rewrite lookup_insert_ne; [done|]. intros ->. congruence.
Qed.

Lemma cpp_set_insert_each_run setptr keys : forall (vals : list T) s h,
  h !! setptr = Some (OSet s) ->
  keys_hold h keys vals ->
  cpp_set_insert_each setptr keys h
  = Some (tt, <[setptr := OSet (list_to_set vals ∪ s)]> h).
Proof.
  induction keys as [|key keys IH]; intros vals s h Hs Hkeys.
  - apply Forall2_nil_inv_l in Hkeys as ->. simpl. unfold ret.
    rewrite (left_id_L ∅ (∪)). by rewrite insert_id.
  - apply Forall2_cons_inv_l in Hkeys as (v & vals' & Hkey & Hkeys & ->).
    simpl. unfold bind.
    rewrite (cpp_set_insert_run h setptr key s v Hs Hkey).
    rewrite (IH vals' (StdSet.insert v s)).
    + rewrite insert_insert_eq. unfold StdSet.insert.
      assert (list_to_set vals' ∪ ({[v]} ∪ s)
              = (list_to_set (v :: vals') ∪ s : gset T)) as ->; [|done].
      simpl. set_solver.
    + by rewrite lookup_insert_eq.
    + by apply (keys_hold_insert_set setptr s).
Qed.

Lemma size_list_to_set_le (vals : list T) :
  (size (list_to_set vals : gset T) <= length vals)%nat.
Proof.
  induction vals as [|v vals IH].
  - change (list_to_set []) with (∅ : gset T). rewrite size_empty. done.
  - change (list_to_set (v :: vals))
      with ({[v]} ∪ list_to_set vals : gset T).
    rewrite size_union_alt, size_singleton. simpl length.
    pose proof (subseteq_size ((list_to_set vals : gset T) ∖ {[v]})
                  (list_to_set vals) ltac:(set_solver)).
    lia.
Qed.

(** X5: [cpp_set_insert<T>] called for a list of key pointers, in any
    number and with repeated keys, returns normally and leaves in the set
    the keys it held and the keys pointed to, nothing else; the set has
    grown by at most the number of calls and every other object is as it
    was. *)
Theorem cpp_set_insert_each_spec setptr keys (vals : list T) s h :
  h !! setptr = Some (OSet s) ->
  keys_hold h keys vals ->
  exists (s' : gset T) (h' : heap T),
    cpp_set_insert_each setptr keys h = Some (tt, h')
    /\ h' !! setptr = Some (OSet s')
    /\ (forall x, x ∈ s' <-> x ∈ vals \/ x ∈ s)
    /\ (size s <= size s' <= size s + length keys)%nat
    /\ (forall q, q <> setptr -> h' !! q = h !! q).
Proof.
  intros Hs Hkeys.
  exists (list_to_set vals ∪ s), (<[setptr := OSet (list_to_set vals ∪ s)]> h).
  split; [by apply cpp_set_insert_each_run|].
  split; [by rewrite lookup_insert_eq|].
  split; [intros x; rewrite elem_of_union, elem_of_list_to_set; done|].
  split; [|by intros q Hq; rewrite lookup_insert_ne].
  split; [apply subseteq_size; set_solver|].
  rewrite size_union_alt, (Forall2_length _ _ _ Hkeys).
  pose proof (subseteq_size (s ∖ list_to_set vals) s ltac:(set_solver)).
  pose proof (size_list_to_set_le vals). lia.
Qed.

(** X12: the heap after [cpp_set_insert<T>] for a list of key pointers
    depends on the keys pointed to only as a set: another list of
    pointers to the same keys, in another order or with other
    repetitions, gives the same heap. *)
Theorem cpp_set_insert_each_order setptr keys keys' (vals vals' : list T) s h :
  h !! setptr = Some (OSet s) ->
  keys_hold h keys vals ->
  keys_hold h keys' vals' ->
  (forall x, x ∈ vals <-> x ∈ vals') ->
  cpp_set_insert_each setptr keys h = cpp_set_insert_each setptr keys' h.
Proof.
  intros Hs Hkeys Hkeys' Hsame.
  rewrite (cpp_set_insert_each_run setptr keys vals s h Hs Hkeys).
  rewrite (cpp_set_insert_each_run setptr keys' vals' s h Hs Hkeys').
  assert (list_to_set vals = (list_to_set vals' : gset T)) as ->; [|done].
  apply set_eq. intros x. by rewrite !elem_of_list_to_set.
Qed.

(** *** Bumping a duration several times *)

Lemma int64_wrap_add_wrap (a b : Z) :
  Int64.wrap (Int64.wrap a + b) = Int64.wrap (a + b).
Proof.
  unfold Int64.wrap, Int64.modulus.
  replace ((a + 2 ^ 63) mod 2 ^ 64 - 2 ^ 63 + b + 2 ^ 63)
    with ((a + 2 ^ 63) mod 2 ^ 64 + b) by lia.
  rewrite Zplus_mod_idemp_l. do 2 f_equal. lia.
Qed.

Lemma bump5Hours_times_run (n : nat) ms : forall (d : Z) h,
  h !! ms = Some (OMillis (Chrono.Duration d)) ->
  Int64.in_range d ->
  bump5Hours_times n ms h
  = Some (tt, <[ms := OMillis (Chrono.Duration
                         (Int64.wrap (d + Z.of_nat n * 18000000)))]> h).
Proof.
  induction n as [|n IH]; intros d h Hms Hd.
  - cbn [bump5Hours_times]. unfold ret.
    replace (d + Z.of_nat 0 * 18000000) with d by lia.
    rewrite int64_wrap_in_range by done. by rewrite insert_id.
  - cbn [bump5Hours_times]. unfold bind.
    rewrite bump5Hours_cases, Hms. cbn [Chrono.count].
    rewrite (IH (Int64.wrap (d + 18000000))).
    + rewrite insert_insert_eq, int64_wrap_add_wrap.
      replace (d + 18000000 + Z.of_nat n * 18000000)
        with (d + Z.of_nat (S n) * 18000000) by lia.
      done.
    + by rewrite lookup_insert_eq.
    + apply int64_wrap_range.
Qed.

(** X6: [n] calls of [bump5Hours] on a duration of count [d] return
    normally and leave the count [d] plus [n] times 18,000,000, reduced to
    the 64 bits of the representation, which is the exact sum whenever
    that fits; no other object changes. *)
Theorem bump5Hours_times_spec (n : nat) ms (d : Z) h :
  h !! ms = Some (OMillis (Chrono.Duration d)) ->
  Int64.in_range d ->
  exists (d' : Z) (h' : heap T),
    bump5Hours_times n ms h = Some (tt, h')
    /\ h' !! ms = Some (OMillis (Chrono.Duration d'))
    /\ d' = Int64.wrap (d + Z.of_nat n * 18000000)
    /\ Int64.in_range d'
    /\ (d + Z.of_nat n * 18000000 <= Int64.max_signed ->
        d' = d + Z.of_nat n * 18000000)
    /\ (forall q, q <> ms -> h' !! q = h !! q).
Proof.
  intros Hms Hd.
  exists (Int64.wrap (d + Z.of_nat n * 18000000)),
    (<[ms := OMillis (Chrono.Duration
                        (Int64.wrap (d + Z.of_nat n * 18000000)))]> h).
  split; [by apply bump5Hours_times_run|].
  split; [by rewrite lookup_insert_eq|].
  split; [done|]. split; [apply int64_wrap_range|].
  split; [|by intros q Hq; rewrite lookup_insert_ne].
  intros Hfit. apply int64_wrap_in_range.
  unfold Int64.in_range, Int64.min_signed in *. lia.
Qed.

(** *** Sets from [makeStdSet] *)

(** X7: two sets from [makeStdSet<T>()] are different objects: a key
    inserted into the first is in the first only, the second stays empty,
    and the key and every object that existed before are as they were. *)
Theorem two_sets_independent key (k : T) h :
  h !! key = Some (OVal k) ->
  exists (first second : addr) (h' : heap T),
    two_sets_one_insert key h = Some ((first, second), h')
    /\ first <> second
    /\ h !! first = None /\ h !! second = None
    /\ h' !! first = Some (OSet {[k]})
    /\ h' !! second = Some (OSet ∅)
    /\ (forall q, q <> first -> q <> second -> h' !! q = h !! q).
Proof.
  intros Hkey. unfold two_sets_one_insert, bind, makeStdSet.
  destruct (new_run (OSet (∅ : gset T)) h) as (p1 & -> & _ & Hp1).
  destruct (new_run (OSet (∅ : gset T)) (<[p1 := OSet ∅]> h))
    as (p2 & -> & _ & Hp2).
  assert (p1 <> p2) as Hne by (intros ->; by rewrite lookup_insert_eq in Hp2).
  rewrite lookup_insert_ne in Hp2 by done.
  assert (key <> p1) by (intros ->; congruence).
  assert (key <> p2) by (intros ->; congruence).
  rewrite (cpp_set_insert_run _ p1 key ∅ k);
    [|by rewrite lookup_insert_ne, lookup_insert_eq
     |by rewrite !lookup_insert_ne].
  exists p1, p2, (<[p1 := OSet (StdSet.insert k ∅)]>
                    (<[p2 := OSet ∅]> (<[p1 := OSet ∅]> h))).
  split; [done|]. split; [done|]. split; [done|]. split; [done|].
  split.
  { rewrite lookup_insert_eq. unfold StdSet.insert.
    by rewrite (right_id_L ∅ (∪)). }
  split; [by rewrite lookup_insert_ne, lookup_insert_eq|].
  intros q Hq1 Hq2. by rewrite !lookup_insert_ne.
Qed.

End Calls.

(** X8: [makeTestSet] builds the object that [makeStdSet<unsigned int>]
    followed by [cpp_set_insert<unsigned int>] of 1, 2, 3, 4 and 5, in this
    or another order of the keys, builds: the same pointer and the same
    heap. *)
Theorem makeTestSet_as_inserts (keys : list addr) (vals : list uint)
    (h : heap uint) :
  keys_hold h keys vals ->
  vals ≡ₚ [1; 2; 3; 4; 5]%N ->
  makeStdSet_filled keys h = makeTestSet h.
Proof.
  intros Hkeys Hvals. unfold makeStdSet_filled, makeTestSet, makeStdSet, bind.
  destruct (new_run (OSet (∅ : gset uint)) h) as (p & Hrun & _ & Hp).
  rewrite Hrun.
  rewrite (cpp_set_insert_each_run p keys vals ∅).
  - unfold ret, new in *. injection Hrun as <-.
    rewrite insert_insert_eq, test_set_elements. do 4 f_equal.
    rewrite (right_id_L ∅ (∪)). apply set_eq. intros x.
    rewrite elem_of_list_to_set, Hvals. set_solver.
  - by rewrite lookup_insert_eq.
  - unfold keys_hold in *. eapply Forall2_impl; [exact Hkeys|].
    intros key v Hkey. simpl in Hkey.
    rewrite lookup_insert_ne; [done|]. intros ->. congruence.
Qed.

Lemma cpp_set_insert_each_spec_witness :
  exists (s' : gset uint) (h' : heap uint),
    cpp_set_insert_each 1%N [2; 3; 5; 2]%N heap_set_and_keys = Some (tt, h')
    /\ h' !! 1%N = Some (OSet s')
    /\ (forall x, x ∈ s' <-> x ∈ [9; 7; 3; 9]%N \/ x ∈ ({[7%N]} : gset uint))
    /\ (size ({[7%N]} : gset uint) <= size s'
        <= size ({[7%N]} : gset uint) + length [2; 3; 5; 2]%N)%nat
    /\ (forall q, q <> 1%N -> h' !! q = heap_set_and_keys !! q).
Proof.
  apply (cpp_set_insert_each_spec 1%N [2; 3; 5; 2]%N [9; 7; 3; 9]%N
           {[7%N]} heap_set_and_keys).
  - reflexivity.
  - repeat constructor.
Defined.

Lemma cpp_set_insert_each_order_witness :
  cpp_set_insert_each 1%N [2; 3; 5; 2]%N heap_set_and_keys
  = cpp_set_insert_each 1%N [5; 3; 2]%N heap_set_and_keys.
Proof.
  apply (cpp_set_insert_each_order 1%N [2; 3; 5; 2]%N [5; 3; 2]%N
           [9; 7; 3; 9]%N [3; 7; 9]%N {[7%N]} heap_set_and_keys).
  - reflexivity.
  - repeat constructor.
  - repeat constructor.
  - intros x. rewrite !elem_of_cons, !elem_of_nil. tauto.
Defined.

Lemma bump5Hours_times_spec_witness :
  exists (d' : Z) (h' : heap uint),
    bump5Hours_times 3 4%N heap_millis = Some (tt, h')
    /\ h' !! 4%N = Some (OMillis (Chrono.Duration d'))
    /\ d' = Int64.wrap (1500 + Z.of_nat 3 * 18000000)
    /\ Int64.in_range d'
    /\ (1500 + Z.of_nat 3 * 18000000 <= Int64.max_signed ->
        d' = 1500 + Z.of_nat 3 * 18000000)
    /\ (forall q, q <> 4%N -> h' !! q = heap_millis !! q).
Proof.
  apply (bump5Hours_times_spec 3 4%N 1500 heap_millis).
  - reflexivity.
  - unfold Int64.in_range, Int64.min_signed, Int64.max_signed. lia.
Defined.

Lemma two_sets_independent_witness :
  exists (first second : addr) (h' : heap uint),
    two_sets_one_insert 2%N heap_set_and_keys = Some ((first, second), h')
    /\ first <> second
    /\ heap_set_and_keys !! first = None /\ heap_set_and_keys !! second = None
    /\ h' !! first = Some (OSet {[9%N]})
    /\ h' !! second = Some (OSet ∅)
    /\ (forall q, q <> first -> q <> second -> h' !! q = heap_set_and_keys !! q).
Proof.
  apply (two_sets_independent 2%N 9%N heap_set_and_keys). reflexivity.
Defined.

Lemma makeTestSet_as_inserts_witness :
  makeStdSet_filled [13; 11; 15; 12; 14]%N heap_five_keys
  = makeTestSet heap_five_keys.
Proof.
  apply (makeTestSet_as_inserts [13; 11; 15; 12; 14]%N [3; 1; 5; 2; 4]%N).
  - repeat constructor.
  - by apply (bool_decide_unpack _).
Defined.

(** The calls on small heaps. *)
Example cpp_set_insert_each_run_example :
  cpp_set_insert_each 1%N [2; 3; 5; 2]%N heap_set_and_keys
  = Some (tt, <[1%N := OSet {[3; 7; 9]}%N]> heap_set_and_keys).
Proof. by vm_compute. Qed.

Example cpp_set_insert_each_bad_key :
  cpp_set_insert_each 1%N [2; 4; 5]%N heap_set_and_keys = None.
Proof. by vm_compute. Qed.

Example bump5Hours_three_times :
  bump5Hours_times 3 4%N heap_millis
  = Some (tt, {[4%N := OMillis (Chrono.Duration 54001500)]}).
Proof. by vm_compute. Qed.

End DUtilsCallsProofs.

(** ** Properties of [callCPPDelegate] *)

Module DelegateProofs.
Import Mem Delegate.

Section Delegate.
Context {T : Type} {EqT : EqDecision T} {CntT : Countable T}.
Context {Target Exn : Type}.
Variable invoke :
  Target -> gmap addr (cell T Target) ->
  option (outcome (exception Exn) * gmap addr (cell T Target)).

Implicit Types (cb : addr) (h : gmap addr (cell T Target)).

Local Abbreviation callCPPDelegate := (callCPPDelegate invoke).

(** A normal return: the target was invoked, it returned, and the
    [std::function] was still there to be deleted. *)
Lemma callCPPDelegate_returns cb h h' :
  callCPPDelegate cb h = Some (Returns, h') <->
  exists (target : Target) h1 (f : option Target),
    h !! cb = Some (CFunction (Some target))
    /\ invoke target h = Some (Returns, h1)
    /\ h1 !! cb = Some (CFunction f)
    /\ h' = delete cb h1.
Proof.
  unfold Delegate.callCPPDelegate, call_function, delete_function. split.
  - destruct (h !! cb) as [[o|[target|]]|] eqn:Hcb; try done.
    destruct (invoke target h) as [[[|e] h1]|] eqn:Hrun; try done.
    destruct (h1 !! cb) as [[o|f]|] eqn:Hcb1; try done.
    intros [= <-]. by exists target, h1, f.
  - intros (target & h1 & f & -> & -> & -> & ->). done.
Qed.

(** X9: a delegate can be called once.  When [callCPPDelegate] returns,
    the target behind [cb] was invoked on the heap of the call and
    returned, the heap is the one the target left without the
    [std::function] at [cb], which is deleted, and a second
    [callCPPDelegate] on the same pointer has no defined result. *)
Theorem callCPPDelegate_once cb h h' :
  callCPPDelegate cb h = Some (Returns, h') ->
  (exists (target : Target) h1,
     h !! cb = Some (CFunction (Some target))
     /\ invoke target h = Some (Returns, h1)
     /\ h' = delete cb h1)
  /\ h' !! cb = None
  /\ callCPPDelegate cb h' = None.
Proof.
  intros (target & h1 & f & Hcb & Hrun & Hcb1 & ->)%callCPPDelegate_returns.
  split; [by exists target, h1|].
  split; [by rewrite lookup_delete_eq|].
  unfold Delegate.callCPPDelegate, call_function.
  by rewrite lookup_delete_eq.
Qed.

(** X10: an exception leaves the delegate allocated.  When
    [callCPPDelegate] ends with an exception, either the [std::function]
    at [cb] is empty, the exception is [std::bad_function_call] and the
    heap is unchanged, or the target threw it and the heap is the one the
    target left; in neither case was anything deleted.  An empty
    [std::function] always ends this way. *)
Theorem callCPPDelegate_throws cb h :
  (forall (e : exception Exn) h',
     callCPPDelegate cb h = Some (Throws e, h') ->
     (h !! cb = Some (CFunction None) /\ e = bad_function_call /\ h' = h)
     \/ (exists target : Target,
           h !! cb = Some (CFunction (Some target))
           /\ invoke target h = Some (Throws e, h')))
  /\ (h !! cb = Some (CFunction None) ->
      callCPPDelegate cb h = Some (Throws bad_function_call, h)).
Proof.
  unfold Delegate.callCPPDelegate, call_function, delete_function. split.
  - intros e h'.
    destruct (h !! cb) as [[o|[target|]]|] eqn:Hcb; try done.
    + destruct (invoke target h) as [[[|e'] h1]|] eqn:Hrun; try done.
      * destruct (h1 !! cb) as [[|]|]; done.
      * intros [= <- <-]. right. by exists target.
    + intros [= <- <-]. by left.
  - by intros ->.
Qed.

(** X11: a target that frees its own [std::function] and returns makes
    [callCPPDelegate] undefined: the [delete] that follows the call would
    free the object a second time. *)
Theorem callCPPDelegate_double_delete cb h (target : Target) h1 :
  h !! cb = Some (CFunction (Some target)) ->
  invoke target h = Some (Returns, h1) ->
  h1 !! cb = None ->
  callCPPDelegate cb h = None.
Proof.
  intros Hcb Hrun Hcb1.
  unfold Delegate.callCPPDelegate, call_function, delete_function.
  by rewrite Hcb, Hrun, Hcb1.
Qed.

End Delegate.

Lemma callCPPDelegate_once_witness :
  (exists (target : example_target) h1,
     heap_delegates !! 2%N = Some (CFunction (Some target))
     /\ example_invoke target heap_delegates = Some (Returns, h1)
     /\ delete 2%N (<[1%N := CObject (OSet {[4%N]})]> heap_delegates)
        = delete 2%N h1)
  /\ delete 2%N (<[1%N := CObject (OSet {[4%N]})]> heap_delegates) !! 2%N = None
  /\ callCPPDelegate example_invoke 2%N
       (delete 2%N (<[1%N := CObject (OSet {[4%N]})]> heap_delegates))
     = None.
Proof.
  apply (callCPPDelegate_once example_invoke 2%N heap_delegates).
  by vm_compute.
Defined.

Lemma callCPPDelegate_double_delete_witness :
  callCPPDelegate example_invoke 5%N heap_delegates = None.
Proof.
  apply (callCPPDelegate_double_delete example_invoke 5%N heap_delegates
           (DeleteFunction 5%N) (delete 5%N heap_delegates));
    by vm_compute.
Defined.

(** The delegates of the example heap. *)
Example callCPPDelegate_adds_and_frees :
  callCPPDelegate example_invoke 2%N heap_delegates
  = Some (Returns,
          delete 2%N (<[1%N := CObject (OSet {[4%N]})]> heap_delegates)).
Proof. by vm_compute. Qed.

Example callCPPDelegate_target_throws :
  callCPPDelegate example_invoke 3%N heap_delegates
  = Some (Throws (thrown 8%N), heap_delegates).
Proof. by vm_compute. Qed.

Example callCPPDelegate_empty_function :
  callCPPDelegate example_invoke 4%N heap_delegates
  = Some (Throws bad_function_call, heap_delegates).
Proof. by vm_compute. Qed.

Example callCPPDelegate_on_a_set :
  callCPPDelegate example_invoke 1%N heap_delegates = None.
Proof. by vm_compute. Qed.

End DelegateProofs.
